(** * A shallow embedding of archivotron's [PathGenerator]

    This file models [src/archivotron/PathGenerator.py]: the classes
    [NameComponent], [InclusionRule] and [PathGenerator], the builder
    methods, [gen_path] and the delimiter normalisation
    [_strip_repeat_delimiters].

    Modelling choices:
    - Python [str] is [string]; an attribute dict is an association list
      [list (string * string)] in insertion order, looked up by first match;
    - a Python [set] of strings is a duplicate-free list in insertion order
      (CPython's iteration order over a string set is hash dependent; the
      results below about normalisation hold for every order);
    - an exception is an [Err] of the result type [res]; each constructor of
      [exn] names the [raise] site it stands for;
    - a method call that mutates [self] returns the new object. *)

From Stdlib Require Import String Ascii List Bool Arith Lia.
Import ListNotations.
Open Scope list_scope.
Open Scope string_scope.

(** ** Exceptions and results *)

Inductive exn : Type :=
  (** [ValueError("No path target completed!...")] in [gen_path] *)
| NotTerminated
  (** [ValueError("Specified file separator ... is not valid ...")] in
      [__init__] *)
| InvalidFileSep (file_sep : string)
  (** [ValueError("NameComponent is required for key ...")] in
      [NameComponent.name] *)
| MissingRequired (key : string)
  (** [ValueError("Rule violation: attribute k disallowed for key ...,
      value ...")] in [InclusionRule.check] *)
| RuleViolation (k key val : string)
  (** [ValueError("Attribute k is not valid")] in the [except KeyError]
      branch of [gen_path] *)
| UnknownAttribute (k : string)
  (** a [KeyError] *)
| KeyError (k : string)
  (** [UnboundLocalError]: [path] read in [gen_path] after the [except]
      branch left it unassigned *)
| UnboundLocal
  (** the error the spec asks for when mutating a terminated builder; no
      statement of the source raises it *)
| AlreadyTerminated
  (** the error the spec asks for when a name is registered twice; no
      statement of the source raises it *)
| DuplicateAttribute (name : string).

Inductive res (A : Type) : Type :=
| Ok (a : A)
| Err (e : exn).
Arguments Ok {A} a.
Arguments Err {A} e.

Definition bind {A B : Type} (r : res A) (f : A -> res B) : res B :=
  match r with
  | Ok a => f a
  | Err e => Err e
  end.

Notation "x <- r ;; k" := (bind r (fun x => k))
  (at level 61, r at next level, right associativity).

Definition is_err {A : Type} (r : res A) : bool :=
  match r with Ok _ => false | Err _ => true end.

(** ** Python helpers *)

(** [k in xs] *)
Definition mem (k : string) (xs : list string) : bool :=
  existsb (String.eqb k) xs.

(** [set.add]: a set as a duplicate-free list in insertion order *)
Definition set_add (k : string) (s : list string) : list string :=
  if mem k s then s else (s ++ [k])%list.

Definition dict := list (string * string).

Definition keys (m : dict) : list string := map fst m.

(** [m[k]] when [k in m.keys()] *)
Fixpoint lookup (k : string) (m : dict) : option string :=
  match m with
  | [] => None
  | (k', v) :: m' => if String.eqb k k' then Some v else lookup k m'
  end.

(** [s.endswith(d)] *)
Fixpoint ends_with (d s : string) : bool :=
  String.eqb s d ||
  match s with
  | EmptyString => false
  | String _ s' => ends_with d s'
  end.

(** [s.split(d)] for a non-empty [d]: a left-to-right scan that cuts at
    the first position where the current field ends with [d] (the leftmost
    occurrence, as all occurrences of [d] have the same length). *)
Fixpoint split_go (d s cur : string) : list string :=
  match s with
  | EmptyString => [cur]
  | String c s' =>
      let cur' := cur ++ String c EmptyString in
      if ends_with d cur'
      then substring 0 (String.length cur' - String.length d) cur'
             :: split_go d s' EmptyString
      else split_go d s' cur'
  end.

Definition py_split (d s : string) : list string := split_go d s EmptyString.

(** [d.join(xs)] *)
Definition py_join (d : string) (xs : list string) : string :=
  String.concat d xs.

(** [[x for x in xs if x != ""]] *)
Definition nonempty (x : string) : bool := negb (String.eqb x EmptyString).

(** ** [NameComponent] *)

Record NameComponent : Type := mkNC {
  key : string;
  kv_delim : string;
  value_only : bool;
  required : bool
}.

(** [NameComponent.__init__] *)
Definition NameComponent_init (key kv_delim : string)
    (value_only required : bool) : NameComponent :=
  mkNC key kv_delim value_only (if value_only || required then true else false).

(** [NameComponent.name] *)
Definition name (nc : NameComponent) (attributes : dict) : res string :=
  let has_key := mem (key nc) (keys attributes) in
  if required nc && negb has_key then Err (MissingRequired (key nc))
  else if has_key then
    match lookup (key nc) attributes with
    | Some value =>
        if value_only nc then Ok value
        else Ok (key nc ++ kv_delim nc ++ value)
    | None => Err (KeyError (key nc))
    end
  else Ok EmptyString.

(** ** [InclusionRule] *)

Record InclusionRule : Type := mkRule {
  rule_key : string;
  rule_value : list string;
  includes : list string
}.

(** the [value: Union[str, list]] argument *)
Inductive StrOrList : Type :=
| OneStr (s : string)
| ManyStr (l : list string).

Definition dedup (l : list string) : list string :=
  fold_left (fun s k => set_add k s) l [].

(** [InclusionRule.__init__] *)
Definition InclusionRule_init (key : string) (value : StrOrList)
    (includes : list string) : InclusionRule :=
  let value := match value with OneStr s => [s] | ManyStr l => l end in
  mkRule key (dedup value) (dedup includes).

(** [InclusionRule.check] *)
Definition check (r : InclusionRule) (attributes : dict) : res unit :=
  if negb (mem (rule_key r) (keys attributes)) then Ok tt
  else match lookup (rule_key r) attributes with
       | None => Err (KeyError (rule_key r))
       | Some val =>
           if negb (mem val (rule_value r)) then Ok tt
           else match find (fun k => negb (mem k (includes r)))
                           (keys attributes) with
                | Some k => Err (RuleViolation k (rule_key r) val)
                | None => Ok tt
                end
       end.

(** ** [PathGenerator] *)

(** An entry of [_components]: a plain [str] (a separator) or a
    [NameComponent]. *)
Inductive Segment : Type :=
| Lit (s : string)
| Comp (nc : NameComponent).

Record PathGenerator : Type := mkPG {
  attributes : list string;          (* [_attributes], a set *)
  terminated : bool;                 (* [_terminated] *)
  attribute_sep : string;            (* [_attribute_sep] *)
  kv_sep : string;                   (* [_kv_sep] *)
  file_sep : string;                 (* [_file_sep] *)
  components : list Segment;         (* [_components] *)
  rules : list InclusionRule         (* [_rules] *)
}.

(** [PathGenerator.__init__]; [os_sep] is [os.path.sep], the value taken
    when [file_sep] is [None]; [root = None] is [root : option string]. *)
Definition PathGenerator_init (os_sep : string) (root : option string)
    (attribute_sep kv_sep : string) (file_sep : option string)
    : res PathGenerator :=
  let fs_r :=
    match file_sep with
    | None => Ok os_sep
    | Some fs =>
        if String.eqb fs "/" || String.eqb fs "\" then Ok fs
        else Err (InvalidFileSep fs)
    end in
  fs <- fs_r ;;
  let comps :=
    match root with
    | None => []
    | Some r => if String.eqb r "" then [Lit fs] else [Lit (r ++ fs)]
    end in
  Ok (mkPG [] false attribute_sep kv_sep fs comps []).

Definition with_components (g : PathGenerator) (cs : list Segment)
    : PathGenerator :=
  mkPG (attributes g) (terminated g) (attribute_sep g) (kv_sep g)
       (file_sep g) cs (rules g).

(** [PathGenerator.add_component] *)
Definition add_component (g : PathGenerator) (key : string)
    (delimiter : option string) (value_only required : bool)
    : PathGenerator :=
  let attrs := set_add key (attributes g) in
  let delimiter := match delimiter with None => kv_sep g | Some d => d end in
  let nc := NameComponent_init key delimiter value_only required in
  let comps :=
    match rev (components g) with
    | [] => [Comp nc]
    | Comp _ :: _ => (components g ++ [Lit (attribute_sep g); Comp nc])%list
    | Lit _ :: _ => (components g ++ [Comp nc])%list
    end in
  mkPG attrs (terminated g) (attribute_sep g) (kv_sep g) (file_sep g)
       comps (rules g).

(** [PathGenerator.delimiter_override] *)
Definition delimiter_override (g : PathGenerator) (delimiter : string)
    : PathGenerator :=
  with_components g (components g ++ [Lit delimiter])%list.

(** [PathGenerator.add_filesep] *)
Definition add_filesep (g : PathGenerator) : PathGenerator :=
  with_components g (components g ++ [Lit (file_sep g)])%list.

(** [PathGenerator.terminate] *)
Definition terminate (g : PathGenerator) : PathGenerator :=
  mkPG (attributes g) true (attribute_sep g) (kv_sep g) (file_sep g)
       (components g) (rules g).

(** [PathGenerator.add_inclusion_rule] *)
Definition add_inclusion_rule (g : PathGenerator) (key : string)
    (value : StrOrList) (attrs : list string) : PathGenerator :=
  mkPG (attributes g) (terminated g) (attribute_sep g) (kv_sep g)
       (file_sep g) (components g)
       (rules g ++ [InclusionRule_init key value attrs])%list.

(** A builder method call. *)
Inductive call : Type :=
| AddComponent (key : string) (delimiter : option string)
    (value_only required : bool)
| DelimiterOverride (delimiter : string)
| AddFilesep
| AddInclusionRule (key : string) (value : StrOrList) (attrs : list string)
| Terminate.

(** The mutators, as opposed to [terminate]. *)
Definition is_mutator (c : call) : bool :=
  match c with Terminate => false | _ => true end.

(** Executing a method call on the builder.  None of the five methods has
    a [raise] statement or a test of [_terminated]. *)
Definition exec (g : PathGenerator) (c : call) : res PathGenerator :=
  match c with
  | AddComponent k d vo rq => Ok (add_component g k d vo rq)
  | DelimiterOverride d => Ok (delimiter_override g d)
  | AddFilesep => Ok (add_filesep g)
  | AddInclusionRule k v a => Ok (add_inclusion_rule g k v a)
  | Terminate => Ok (terminate g)
  end.

Fixpoint run (r : res PathGenerator) (cs : list call) : res PathGenerator :=
  match cs with
  | [] => r
  | c :: cs' => run (g <- r ;; exec g c) cs'
  end.

(** [PathGenerator._str] *)
Definition str_ (o : Segment) (att : dict) : res string :=
  match o with
  | Lit s => Ok s
  | Comp nc => name nc att
  end.

(** [[PathGenerator._str(x, attributes) for x in self._components]]:
    elements evaluated left to right, the first exception propagates. *)
Fixpoint render_all (xs : list Segment) (att : dict) : res (list string) :=
  match xs with
  | [] => Ok []
  | x :: xs' =>
      s <- str_ x att ;;
      ss <- render_all xs' att ;;
      Ok (s :: ss)
  end.

(** [for rule in self._rules: rule.check(subset)] *)
Fixpoint check_rules (rs : list InclusionRule) (subset : dict) : res unit :=
  match rs with
  | [] => Ok tt
  | r :: rs' => _ <- check r subset ;; check_rules rs' subset
  end.

(** the delimiter of an entry of [_components] *)
Definition seg_delim (c : Segment) : string :=
  match c with
  | Lit s => s
  | Comp nc => kv_delim nc
  end.

(** the set [delimiters] of [_strip_repeat_delimiters] *)
Definition delimiters (g : PathGenerator) : list string :=
  dedup (map seg_delim (components g)).

(** one pass of the loop of [_strip_repeat_delimiters] *)
Definition strip_one (path d : string) : string :=
  if String.eqb d "" then path
  else py_join d (filter nonempty (py_split d path)).

(** the loop of [_strip_repeat_delimiters], over the delimiters in the
    order [ds] *)
Definition strip_with (ds : list string) (path : string) : string :=
  fold_left strip_one ds path.

(** [PathGenerator._strip_repeat_delimiters] *)
Definition strip_repeat_delimiters (g : PathGenerator) (path : string)
    : string :=
  strip_with (delimiters g) path.

(** [{k: attributes[k] for k in self._attributes if k in attributes.keys()}] *)
Definition subset_of (g : PathGenerator) (atts : dict) : dict :=
  flat_map (fun k => if mem k (keys atts)
                     then match lookup k atts with
                          | Some v => [(k, v)]
                          | None => []
                          end
                     else [])
           (attributes g).

(** [PathGenerator.gen_path] *)
Definition gen_path (g : PathGenerator) (atts : dict) : res string :=
  if negb (terminated g) then Err NotTerminated
  else
    _ <- check_rules (rules g) (subset_of g atts) ;;
    match render_all (components g) atts with
    | Ok parts => Ok (strip_repeat_delimiters g (String.concat "" parts))
    | Err (KeyError _) =>
        match find (fun k => negb (mem k (attributes g))) (keys atts) with
        | Some k => Err (UnknownAttribute k)
        | None => Err UnboundLocal
        end
    | Err e => Err e
    end.

(** ** The test templates of [tests/test_PathGenerator.py] *)

(** [PathGenerator()] on a POSIX host, then the builder calls of the first
    half of [test_gen_path_succeeds] (Scenario A). *)
Definition scenario_A : res PathGenerator :=
  run (PathGenerator_init "/" (Some "") "_" "-" None)
    [AddComponent "subject" None false true; AddFilesep;
     AddComponent "session" None false true; AddFilesep;
     AddComponent "modality" None true true; AddFilesep;
     AddComponent "subject" None false true;
     AddComponent "session" None false true;
     AddComponent "submodality" None true true; Terminate].

Definition atts_A : dict :=
  [("subject", "Jen"); ("session", "1"); ("modality", "anat");
   ("submodality", "T1w")].

(** [PathGenerator(None, attribute_sep=".", kv_sep="")], second half of
    [test_gen_path_succeeds] (Scenario B). *)
Definition scenario_B : res PathGenerator :=
  run (PathGenerator_init "/" None "." "" None)
    [AddComponent "pb" None false true; AddComponent "subj" None false true;
     AddComponent "r" None false true; AddComponent "step" None true true;
     DelimiterOverride "+"; AddComponent "space" None true true; Terminate].

Definition atts_B : dict :=
  [("pb", "01"); ("subj", "99"); ("r", "01"); ("step", "tshift");
   ("space", "orig")].

(** [PathGenerator("/")] with one component [subject], as in
    [test_gen_path_fails] (Scenario C). *)
Definition scenario_C_building : res PathGenerator :=
  run (PathGenerator_init "/" (Some "/") "_" "-" None)
    [AddComponent "subject" None false true].

Definition scenario_C : res PathGenerator :=
  run scenario_C_building [Terminate].

Definition gen_path_r (g : res PathGenerator) (atts : dict) : res string :=
  g' <- g ;; gen_path g' atts.

(** [sub in s] for strings *)
Fixpoint contains (sub s : string) : bool :=
  String.prefix sub s ||
  match s with
  | EmptyString => false
  | String _ s' => contains sub s'
  end.

(** a Scenario A template, before [terminate] *)
Definition scenario_A_building : res PathGenerator :=
  run (PathGenerator_init "/" (Some "") "_" "-" None)
    [AddComponent "subject" None false true; AddFilesep;
     AddComponent "session" None false true].

(** A template with an optional component between two file separators:
    [PathGenerator(); add_component("a", required=False); add_filesep();
    add_component("b"); terminate()]. *)
Definition optional_first : res PathGenerator :=
  run (PathGenerator_init "/" (Some "") "_" "-" None)
    [AddComponent "a" None false false; AddFilesep;
     AddComponent "b" None false true; Terminate].

(** [PathGenerator(None, attribute_sep="bab", kv_sep="")] with components
    [p], [q] (optional) and [r]. *)
Definition optional_middle : res PathGenerator :=
  run (PathGenerator_init "/" None "bab" "" None)
    [AddComponent "p" None false true; AddComponent "q" None false false;
     AddComponent "r" None false true; Terminate].

(** the concatenation of the rendered entries, before normalisation *)
Definition raw_path (g : res PathGenerator) (atts : dict) : res string :=
  g' <- g ;; parts <- render_all (components g') atts ;;
  Ok (String.concat "" parts).

(** Every value-only component of a template is required. *)
Definition vo_required (g : PathGenerator) : Prop :=
  forall nc, In (Comp nc) (components g) -> value_only nc = true ->
             required nc = true.

Definition scenario_A_value : PathGenerator :=
  match scenario_A with Ok g => g | Err _ => mkPG [] false "" "" "" [] [] end.

Definition optional_first_value : PathGenerator :=
  match optional_first with Ok g => g | Err _ => mkPG [] false "" "" "" [] [] end.

(** [dbl c s]: [s] holds two adjacent [c] characters *)
Fixpoint dbl (c : ascii) (s : string) : bool :=
  match s with
  | String x (String y _ as s') => (Ascii.eqb x c && Ascii.eqb y c) || dbl c s'
  | _ => false
  end.

(** [has_char c s]: [c in s] *)
Fixpoint has_char (c : ascii) (s : string) : bool :=
  match s with
  | EmptyString => false
  | String x s' => Ascii.eqb x c || has_char c s'
  end.

Definition head_is (c : ascii) (s : string) : bool :=
  match s with
  | EmptyString => false
  | String x _ => Ascii.eqb x c
  end.

(** a template produced by [PathGenerator(...)] and builder calls *)
Definition built (g : PathGenerator) : Prop :=
  exists os root asep kvsep fs cs,
    run (PathGenerator_init os root asep kvsep fs) cs = Ok g.

(** the keys of the [add_component] calls of a call sequence *)
Definition added_keys (cs : list call) : list string :=
  flat_map (fun c => match c with
                     | AddComponent k _ _ _ => [k]
                     | _ => []
                     end) cs.

(** the rules of the [add_inclusion_rule] calls of a call sequence *)
Definition added_rules (cs : list call) : list InclusionRule :=
  flat_map (fun c => match c with
                     | AddInclusionRule k v a => [InclusionRule_init k v a]
                     | _ => []
                     end) cs.

Definition seg_is_comp (x : Segment) : bool :=
  match x with Comp _ => true | Lit _ => false end.

(** [isinstance(self._components[-1], NameComponent)] for a non-empty list *)
Definition last_is_comp (l : list Segment) : bool :=
  match rev l with
  | x :: _ => seg_is_comp x
  | [] => false
  end.

(** no two components follow each other without a separator entry *)
Fixpoint no_adjacent_comps (l : list Segment) : bool :=
  match l with
  | [] => true
  | x :: l' =>
      match l' with
      | y :: _ => negb (seg_is_comp x && seg_is_comp y) && no_adjacent_comps l'
      | [] => true
      end
  end.

(** a terminated template with one inclusion rule *)
Definition rule_template : PathGenerator :=
  add_inclusion_rule
    (terminate (mkPG ["modality"; "task"] false "_" "-" "/"
                  [Comp (mkNC "modality" "-" true true)] []))
    "modality" (OneStr "anat") ["modality"].

(** ** Lemmas on the helpers *)

Lemma mem_keys_lookup_none (k : string) (m : dict) :
  mem k (keys m) = false <-> lookup k m = None.
Proof.
  induction m as [|[k' v] m IH]; simpl; [tauto|].
  destruct (String.eqb k k'); simpl; [split; discriminate | exact IH].
Qed.

Lemma mem_keys_lookup_some (k : string) (m : dict) :
  mem k (keys m) = true -> exists v, lookup k m = Some v.
Proof.
  intros H. destruct (lookup k m) as [v|] eqn:E; [eauto|].
  apply mem_keys_lookup_none in E. congruence.
Qed.

Lemma lookup_some_mem (k v : string) (m : dict) :
  lookup k m = Some v -> mem k (keys m) = true.
Proof.
  intros H. destruct (mem k (keys m)) eqn:E; [reflexivity|].
  apply mem_keys_lookup_none in E. congruence.
Qed.

Lemma mem_In (k : string) (xs : list string) :
  mem k xs = true <-> In k xs.
Proof.
  unfold mem. rewrite existsb_exists. split.
  - intros [x [Hx Heq]]. apply String.eqb_eq in Heq. subst. exact Hx.
  - intros H. exists k. split; [exact H | apply String.eqb_refl].
Qed.

Lemma name_absent (nc : NameComponent) (m : dict) :
  lookup (key nc) m = None ->
  name nc m = if required nc then Err (MissingRequired (key nc)) else Ok "".
Proof.
  intros Hn. unfold name. apply mem_keys_lookup_none in Hn. rewrite Hn.
  destruct (required nc); reflexivity.
Qed.

(** Rendering raises only [MissingRequired]. *)
Lemma name_err (nc : NameComponent) (m : dict) (e : exn) :
  name nc m = Err e -> e = MissingRequired (key nc).
Proof.
  unfold name.
  destruct (required nc && negb (mem (key nc) (keys m))).
  { intros H. injection H as <-. reflexivity. }
  destruct (mem (key nc) (keys m)) eqn:E; [|discriminate].
  destruct (mem_keys_lookup_some _ _ E) as [v Hv]. rewrite Hv.
  destruct (value_only nc); discriminate.
Qed.

Lemma render_all_err (xs : list Segment) (m : dict) (e : exn) :
  render_all xs m = Err e -> exists k, e = MissingRequired k.
Proof.
  induction xs as [|x xs IH]; simpl; [discriminate|].
  destruct x as [s|nc]; simpl.
  - destruct (render_all xs m); simpl; [discriminate | exact IH].
  - destruct (name nc m) eqn:E; simpl.
    + destruct (render_all xs m); simpl; [discriminate | exact IH].
    + intros H. injection H as ->. eexists. exact (name_err nc m _ E).
Qed.

Lemma render_all_In_err (xs : list Segment) (m : dict) (nc : NameComponent)
    (e : exn) :
  In (Comp nc) xs -> name nc m = Err e -> is_err (render_all xs m) = true.
Proof.
  intros Hin He. induction xs as [|x xs IH]; [contradiction|].
  destruct Hin as [-> | Hin]; simpl.
  - rewrite He. reflexivity.
  - destruct (str_ x m); simpl; [|reflexivity].
    specialize (IH Hin). destruct (render_all xs m); [discriminate|reflexivity].
Qed.

(** [InclusionRule.check] raises only [RuleViolation] (or [KeyError], on a
    key it has just found in the dict, which cannot happen). *)
Lemma check_rules_not_unknown (rs : list InclusionRule) (m : dict)
    (k : string) :
  check_rules rs m <> Err (UnknownAttribute k).
Proof.
  induction rs as [|r rs IH]; simpl; [discriminate|].
  unfold check.
  destruct (negb (mem (rule_key r) (keys m))); simpl; [exact IH|].
  destruct (lookup (rule_key r) m) as [val|]; simpl; [|discriminate].
  destruct (negb (mem val (rule_value r))); simpl; [exact IH|].
  destruct (find _ _); simpl; [discriminate | exact IH].
Qed.

(** [gen_path] fails whenever rendering fails. *)
Lemma gen_path_render_err (g : PathGenerator) (atts : dict) :
  is_err (render_all (components g) atts) = true ->
  is_err (gen_path g atts) = true.
Proof.
  intros H. unfold gen_path.
  destruct (terminated g); simpl; [|reflexivity].
  destruct (check_rules (rules g) (subset_of g atts)); simpl; [|reflexivity].
  destruct (render_all (components g) atts) as [|e]; [discriminate|].
  destruct e; try reflexivity.
  destruct (find _ _); reflexivity.
Qed.

(** ** Claims *)

(** C1 (Scenario A).  The entries of the Scenario A template concatenate to
    ["/subject-Jen/session-1/anat/subject-Jen_session-1_T1w"], but
    [gen_path] returns it without its leading ["/"]: normalisation on the
    delimiter ["/"] drops the empty field before the first separator.  The
    result is the same whatever order the delimiter set is processed in. *)
Theorem scenario_A_gen_path :
  raw_path scenario_A atts_A
    = Ok "/subject-Jen/session-1/anat/subject-Jen_session-1_T1w" /\
  gen_path_r scenario_A atts_A
    = Ok "subject-Jen/session-1/anat/subject-Jen_session-1_T1w" /\
  Forall (fun ds => strip_with ds
                      "/subject-Jen/session-1/anat/subject-Jen_session-1_T1w"
                    = "subject-Jen/session-1/anat/subject-Jen_session-1_T1w")
    [["/"; "-"; "_"]; ["/"; "_"; "-"]; ["-"; "/"; "_"];
     ["-"; "_"; "/"]; ["_"; "/"; "-"]; ["_"; "-"; "/"]].
Proof.
  split; [reflexivity|]. split; [reflexivity|].
  repeat constructor.
Qed.

(** C2 as stated fails: a mutator called after [terminate()] does not
    fail. *)
Lemma mutator_after_terminate_succeeds :
  ~ (forall g c, terminated g = true -> is_mutator c = true ->
                 exec g c = Err AlreadyTerminated).
Proof.
  intros H.
  specialize (H (terminate (mkPG [] false "_" "-" "/" [] [])) AddFilesep
                eq_refl eq_refl).
  discriminate.
Qed.

(** C2 (corrected).  [gen_path] on a template whose [terminate()] has not
    been called fails with [NotTerminated]; a mutator called on a
    terminated template does not fail: it changes the template exactly as
    it would have before [terminate()], and the template stays
    terminated. *)
Theorem terminal_gating :
  (forall g atts, terminated g = false -> gen_path g atts = Err NotTerminated)
  /\
  (forall g c, is_mutator c = true ->
     exists g', exec g c = Ok g' /\ exec (terminate g) c = Ok (terminate g')).
Proof.
  split.
  - intros g atts H. unfold gen_path. rewrite H. reflexivity.
  - intros g c Hc. destruct c; try discriminate; simpl; eexists; split;
      reflexivity.
Qed.

Lemma terminal_gating_witness :
  gen_path_r scenario_A_building atts_A = Err NotTerminated /\
  (exists g', exec (mkPG [] false "_" "-" "/" [] []) AddFilesep = Ok g' /\
     exec (terminate (mkPG [] false "_" "-" "/" [] [])) AddFilesep
       = Ok (terminate g')).
Proof.
  split.
  - unfold gen_path_r. simpl.
    apply (proj1 terminal_gating). reflexivity.
  - apply (proj2 terminal_gating). reflexivity.
Defined.

(** C3 (Scenario C).  [gen_path({"pencils": 5})] on the Scenario C template
    raises the [ValueError] of the missing required component [subject],
    not [UnknownAttribute "pencils"]; in general [gen_path] never raises
    [UnknownAttribute] (its [except KeyError] branch is unreachable), and an
    unknown key next to the keys the template needs is silently ignored. *)
Theorem unknown_attribute_not_reported :
  gen_path_r scenario_C [("pencils", "5")] = Err (MissingRequired "subject")
  /\ gen_path_r scenario_C [("subject", "Jen"); ("pencils", "5")]
       = Ok "subject-Jen"
  /\ (forall g atts k, gen_path g atts <> Err (UnknownAttribute k)).
Proof.
  split; [reflexivity|]. split; [reflexivity|].
  intros g atts k. unfold gen_path.
  destruct (terminated g); simpl; [|discriminate].
  destruct (check_rules (rules g) (subset_of g atts)) as [[]|e] eqn:Ec;
    simpl; [|intros H; injection H as ->;
             exact (check_rules_not_unknown _ _ _ Ec)].
  destruct (render_all (components g) atts) as [parts|e] eqn:E;
    [discriminate|].
  destruct (render_all_err _ _ _ E) as [k' ->]. discriminate.
Qed.

(** C5.  Rendering a [NameComponent]: a missing key raises
    [MissingRequired] when the component is required and gives [""]
    otherwise; a present key with value [v] gives [v] for a value-only
    component and [key + kv_delim + v] otherwise. *)
Theorem name_spec (nc : NameComponent) (m : dict) :
  (lookup (key nc) m = None -> required nc = true ->
     name nc m = Err (MissingRequired (key nc))) /\
  (lookup (key nc) m = None -> required nc = false -> name nc m = Ok "") /\
  (forall v, lookup (key nc) m = Some v ->
     name nc m = Ok (if value_only nc then v else key nc ++ kv_delim nc ++ v)).
Proof.
  split; [|split].
  - intros Hn Hr. rewrite (name_absent nc m Hn), Hr. reflexivity.
  - intros Hn Hr. rewrite (name_absent nc m Hn), Hr. reflexivity.
  - intros v Hv. unfold name. rewrite (lookup_some_mem _ _ _ Hv), Hv.
    rewrite andb_false_r. destruct (value_only nc); reflexivity.
Qed.

Lemma name_spec_witness :
  name (mkNC "acq" "-" false true) [("sub", "01")]
    = Err (MissingRequired "acq") /\
  name (mkNC "acq" "-" false false) [("sub", "01")] = Ok "" /\
  name (mkNC "sub" "-" false true) [("sub", "Anthony")] = Ok "sub-Anthony".
Proof.
  split; [|split].
  - apply (proj1 (name_spec (mkNC "acq" "-" false true) [("sub", "01")]));
      reflexivity.
  - apply (proj1 (proj2 (name_spec (mkNC "acq" "-" false false)
                                   [("sub", "01")]))); reflexivity.
  - apply (proj2 (proj2 (name_spec (mkNC "sub" "-" false true)
                                   [("sub", "Anthony")])) "Anthony").
    reflexivity.
Defined.

(** C4 as stated fails: a map holding only the trigger pair [k: v1] has
    all its keys in [{a, b, k}], yet the rule rejects it, because the loop
    of [InclusionRule.check] also tests the trigger key against
    [includes]. *)
Lemma rule_rejects_trigger_key :
  (forall k', In k' (keys [("k", "v1")]) -> In k' ["a"; "b"; "k"]) /\
  check (InclusionRule_init "k" (OneStr "v1") ["a"; "b"]) [("k", "v1")]
    = Err (RuleViolation "k" "k" "v1").
Proof.
  split; [|reflexivity].
  intros k' [<- | []]. simpl. tauto.
Qed.

(** C4 (corrected).  When the trigger key of a rule maps to a value [v] of
    the trigger set, the rule passes exactly when every key of the map, the
    trigger key included, is an allowed key; when [v] is not in the trigger
    set the rule passes whatever the other keys. *)
Theorem rule_check_spec (r : InclusionRule) (m : dict) (v : string) :
  lookup (rule_key r) m = Some v ->
  (mem v (rule_value r) = true ->
     (check r m = Ok tt <-> forall k, In k (keys m) -> In k (includes r))) /\
  (mem v (rule_value r) = false -> check r m = Ok tt).
Proof.
  intros Hl. unfold check.
  rewrite (lookup_some_mem _ _ _ Hl), Hl. simpl. split.
  - intros Hv. rewrite Hv. simpl.
    destruct (find (fun k => negb (mem k (includes r))) (keys m)) as [k|] eqn:F.
    + split; [discriminate|].
      intros Hall. apply find_some in F as [Hin Hk].
      apply Hall, mem_In in Hin. rewrite Hin in Hk. discriminate.
    + split; [|reflexivity].
      intros _ k Hin. apply (find_none _ _ F) in Hin.
      apply negb_false_iff, mem_In in Hin. exact Hin.
  - intros Hv. rewrite Hv. reflexivity.
Qed.

Lemma rule_check_spec_witness :
  (check (InclusionRule_init "k" (OneStr "v1") ["a"; "b"; "k"])
         [("k", "v1"); ("a", "x")] = Ok tt <->
   (forall k, In k (keys [("k", "v1"); ("a", "x")]) ->
              In k (includes (InclusionRule_init "k" (OneStr "v1")
                                                 ["a"; "b"; "k"])))) /\
  check (InclusionRule_init "k" (OneStr "v1") ["a"; "b"])
        [("k", "v2"); ("c", "x")] = Ok tt.
Proof.
  split.
  - apply (rule_check_spec (InclusionRule_init "k" (OneStr "v1") ["a"; "b"; "k"])
             [("k", "v1"); ("a", "x")] "v1"); reflexivity.
  - apply (rule_check_spec (InclusionRule_init "k" (OneStr "v1") ["a"; "b"])
             [("k", "v2"); ("c", "x")] "v2"); reflexivity.
Defined.

(** C7.  [add_component] appends the default attribute separator before
    the new component exactly when the last entry is a component; after a
    separator entry, or on an empty list, it appends the component
    alone. *)
Theorem add_component_separator (g : PathGenerator) (k : string)
    (d : option string) (vo rq : bool) :
  let nc := NameComponent_init k
              (match d with None => kv_sep g | Some d' => d' end) vo rq in
  (forall l nc', components g = (l ++ [Comp nc'])%list ->
     components (add_component g k d vo rq)
       = (components g ++ [Lit (attribute_sep g); Comp nc])%list) /\
  (components g = [] \/ (exists l s, components g = (l ++ [Lit s])%list) ->
     components (add_component g k d vo rq)
       = (components g ++ [Comp nc])%list).
Proof.
  simpl. split.
  - intros l nc' H. unfold add_component; simpl.
    rewrite H, rev_app_distr. reflexivity.
  - intros [H | [l [s H]]]; unfold add_component; simpl; rewrite H.
    + reflexivity.
    + rewrite rev_app_distr. reflexivity.
Qed.

Lemma add_component_separator_witness :
  components (add_component (mkPG [] false "_" "-" "/" [Comp (mkNC "a" "-" false true)] [])
                "b" None false true)
    = [Comp (mkNC "a" "-" false true); Lit "_"; Comp (mkNC "b" "-" false true)] /\
  components (add_component (mkPG [] false "_" "-" "/" [Lit "/"] [])
                "b" None false true)
    = [Lit "/"; Comp (mkNC "b" "-" false true)].
Proof.
  split.
  - apply (proj1 (add_component_separator
                    (mkPG [] false "_" "-" "/" [Comp (mkNC "a" "-" false true)] [])
                    "b" None false true) [] (mkNC "a" "-" false true)).
    reflexivity.
  - apply (proj2 (add_component_separator (mkPG [] false "_" "-" "/" [Lit "/"] [])
                    "b" None false true)).
    right. exists [], "/". reflexivity.
Defined.

(** C8 as stated fails: with [root=None] the entry list starts empty; no
    file separator is emitted. *)
Lemma init_root_none_empty :
  ~ (forall os g, PathGenerator_init os None "_" "-" None = Ok g ->
       exists rest, components g = Lit (file_sep g) :: rest).
Proof.
  intros H. destruct (H "/" (mkPG [] false "_" "-" "/" [] [])) as [rest E];
    [reflexivity | discriminate].
Qed.

(** C8 (corrected).  A new template starts with the entry [root + sep] for a
    non-empty root, with [sep] alone for the empty root, and with no entry
    at all for [root=None]. *)
Theorem init_first_segment (os : string) (root : option string)
    (asep kvsep : string) (fs : option string) (g : PathGenerator) :
  PathGenerator_init os root asep kvsep fs = Ok g ->
  components g = match root with
                 | None => []
                 | Some r => if String.eqb r "" then [Lit (file_sep g)]
                             else [Lit (r ++ file_sep g)]
                 end.
Proof.
  unfold PathGenerator_init.
  destruct fs as [f|]; simpl.
  - destruct (String.eqb f "/" || String.eqb f "\"); simpl; [|discriminate].
    intros H. injection H as <-. reflexivity.
  - intros H. injection H as <-. reflexivity.
Qed.

Lemma init_first_segment_witness :
  components (mkPG [] false "_" "-" "/" [Lit "/data/"] [])
    = [Lit ("/data" ++ file_sep (mkPG [] false "_" "-" "/" [Lit "/data/"] []))].
Proof.
  apply (init_first_segment "/" (Some "/data") "_" "-" None). reflexivity.
Defined.

(** C9 as stated fails: registering a name that is already registered (the
    source registers names through [add_component]) does not fail. *)
Lemma reregister_succeeds :
  ~ (forall g k, mem k (attributes g) = true ->
       exists e, exec g (AddComponent k None false true) = Err e).
Proof.
  intros H. destruct (H (mkPG ["subject"] false "_" "-" "/" [] []) "subject"
                        eq_refl) as [e E].
  discriminate.
Qed.

(** C9 (corrected).  The registry is a set grown by [add_component];
    registering a name that is already there succeeds and leaves the
    registry unchanged. *)
Theorem reregister_keeps_registry (g : PathGenerator) (k : string)
    (d : option string) (vo rq : bool) :
  mem k (attributes g) = true ->
  exists g', exec g (AddComponent k d vo rq) = Ok g' /\
             attributes g' = attributes g.
Proof.
  intros H. eexists. split; [reflexivity|].
  simpl. unfold set_add. rewrite H. reflexivity.
Qed.

Lemma reregister_keeps_registry_witness :
  exists g', exec (mkPG ["subject"] false "_" "-" "/" [] [])
               (AddComponent "subject" None false true) = Ok g' /\
             attributes g' = ["subject"].
Proof.
  apply (reregister_keeps_registry (mkPG ["subject"] false "_" "-" "/" [] [])
           "subject" None false true).
  reflexivity.
Defined.

Lemma init_vo_required (os : string) (root : option string)
    (asep kvsep : string) (fs : option string) (g : PathGenerator) :
  PathGenerator_init os root asep kvsep fs = Ok g -> vo_required g.
Proof.
  intros H nc Hin _. unfold PathGenerator_init in H.
  destruct fs as [f|]; simpl in H;
    [destruct (String.eqb f "/" || String.eqb f "\"); simpl in H;
     [|discriminate]|];
    injection H as <-; simpl in Hin;
    (destruct root as [r|]; [destruct (String.eqb r "")|]);
    simpl in Hin; intuition discriminate.
Qed.

Lemma exec_vo_required (g g' : PathGenerator) (c : call) :
  vo_required g -> exec g c = Ok g' -> vo_required g'.
Proof.
  intros Hg Hc nc Hin Hvo.
  destruct c; simpl in Hc; injection Hc as <-; simpl in Hin;
    try (apply in_app_or in Hin as [Hin | Hin];
         [exact (Hg nc Hin Hvo) | simpl in Hin; intuition discriminate]);
    try exact (Hg nc Hin Hvo).
  unfold add_component in Hin; simpl in Hin.
  destruct (rev (components g)) as [|[s|nc0] l]; simpl in Hin.
  - destruct Hin as [Hin | []]. injection Hin as <-. simpl in Hvo |- *.
    rewrite Hvo. reflexivity.
  - apply in_app_or in Hin as [Hin | [Hin | []]];
      [exact (Hg nc Hin Hvo)|].
    injection Hin as <-. simpl in Hvo |- *. rewrite Hvo. reflexivity.
  - apply in_app_or in Hin as [Hin | [Hin | [Hin | []]]];
      [exact (Hg nc Hin Hvo) | discriminate |].
    injection Hin as <-. simpl in Hvo |- *. rewrite Hvo. reflexivity.
Qed.

Lemma run_vo_required (r : res PathGenerator) (cs : list call)
    (g : PathGenerator) :
  (forall g0, r = Ok g0 -> vo_required g0) ->
  run r cs = Ok g -> vo_required g.
Proof.
  revert r. induction cs as [|c cs IH]; simpl; intros r Hr Hrun.
  - exact (Hr g Hrun).
  - refine (IH _ _ Hrun). intros g1 H1.
    destruct r as [g0|e]; simpl in H1; [|discriminate].
    exact (exec_vo_required g0 g1 c (Hr g0 eq_refl) H1).
Qed.

(** C10.  [NameComponent(key, d, value_only=True, required=r)] is required
    whatever [r] is, so rendering it without its key raises
    [MissingRequired]; consequently [gen_path] on any template built by the
    builder fails on a map lacking the key of one of its value-only
    components. *)
Theorem value_only_required :
  (forall k d rq, required (NameComponent_init k d true rq) = true) /\
  (forall k d rq m, lookup k m = None ->
     name (NameComponent_init k d true rq) m = Err (MissingRequired k)) /\
  (forall os root asep kvsep fs cs g atts nc,
     run (PathGenerator_init os root asep kvsep fs) cs = Ok g ->
     In (Comp nc) (components g) -> value_only nc = true ->
     lookup (key nc) atts = None -> is_err (gen_path g atts) = true).
Proof.
  split; [|split].
  - reflexivity.
  - intros k d rq m H.
    exact (name_absent (NameComponent_init k d true rq) m H).
  - intros os root asep kvsep fs cs g atts nc Hrun Hin Hvo Hn.
    assert (Hrq : required nc = true).
    { refine (run_vo_required _ cs g _ Hrun nc Hin Hvo).
      intros g0 H0. exact (init_vo_required _ _ _ _ _ _ H0). }
    apply gen_path_render_err.
    apply (render_all_In_err _ _ nc (MissingRequired (key nc)) Hin).
    rewrite (name_absent nc atts Hn), Hrq. reflexivity.
Qed.

Lemma value_only_required_witness :
  name (NameComponent_init "modality" "-" true false) [("subject", "Jen")]
    = Err (MissingRequired "modality") /\
  is_err (gen_path scenario_A_value
            [("subject", "Jen"); ("session", "1"); ("submodality", "T1w")])
    = true.
Proof.
  split.
  - apply (proj1 (proj2 value_only_required)). reflexivity.
  - apply (proj2 (proj2 value_only_required) "/" (Some "") "_" "-" None
             [AddComponent "subject" None false true; AddFilesep;
              AddComponent "session" None false true; AddFilesep;
              AddComponent "modality" None true true; AddFilesep;
              AddComponent "subject" None false true;
              AddComponent "session" None false true;
              AddComponent "submodality" None true true; Terminate]
             scenario_A_value _ (NameComponent_init "modality" "-" true true)).
    + reflexivity.
    + vm_compute. repeat first [left; reflexivity | right].
    + reflexivity.
    + reflexivity.
Defined.

(** ** Normalisation on a one-character delimiter *)

Section OneChar.

Lemma dbl_cons (c x : ascii) (s : string) :
  dbl c (String x s) = (Ascii.eqb x c && head_is c s) || dbl c s.
Proof. destruct s; simpl; [rewrite andb_false_r|]; reflexivity. Qed.

Lemma append_assoc (a b d : string) : (a ++ b) ++ d = a ++ (b ++ d).
Proof. induction a; simpl; [|rewrite IHa]; reflexivity. Qed.

Lemma append_empty_r (a : string) : a ++ "" = a.
Proof. induction a; simpl; [|rewrite IHa]; reflexivity. Qed.

Lemma length_append (a b : string) :
  String.length (a ++ b) = String.length a + String.length b.
Proof. induction a; simpl; [|rewrite IHa]; reflexivity. Qed.

Lemma substring_append (a b : string) :
  substring 0 (String.length a) (a ++ b) = a.
Proof. induction a; simpl; [destruct b|rewrite IHa]; reflexivity. Qed.

Lemma ends_with_one (c x : ascii) (cur : string) :
  ends_with (String c "") (cur ++ String x "") = Ascii.eqb x c.
Proof.
  induction cur as [|y cur IH]; simpl.
  - destruct (Ascii.eqb x c); reflexivity.
  - rewrite IH.
    assert (Hne : String.eqb (cur ++ String x "") "" = false)
      by (destruct cur; reflexivity).
    rewrite Hne. destruct (Ascii.eqb y c); reflexivity.
Qed.

Lemma split_go_one (c x : ascii) (s cur : string) :
  split_go (String c "") (String x s) cur
  = if Ascii.eqb x c then cur :: split_go (String c "") s ""
    else split_go (String c "") s (cur ++ String x "").
Proof.
  simpl. rewrite ends_with_one.
  destruct (Ascii.eqb x c); [|reflexivity].
  rewrite length_append. simpl. rewrite Nat.add_sub.
  rewrite substring_append. reflexivity.
Qed.

Lemma split_go_not_nil (d s cur : string) : split_go d s cur <> [].
Proof.
  revert cur. induction s as [|x s IH]; intros cur; simpl; [discriminate|].
  destruct (ends_with _ _); [discriminate | apply IH].
Qed.

Lemma concat_cons (sep x : string) (xs : list string) :
  xs <> [] -> String.concat sep (x :: xs) = x ++ sep ++ String.concat sep xs.
Proof. destruct xs; [congruence | reflexivity]. Qed.

(** [sep.join(s.split(sep)) == s] *)
Lemma concat_split_go (c : ascii) (s cur : string) :
  String.concat (String c "") (split_go (String c "") s cur) = cur ++ s.
Proof.
  revert cur. induction s as [|x s IH]; intros cur.
  - simpl. rewrite append_empty_r. reflexivity.
  - rewrite split_go_one. destruct (Ascii.eqb x c) eqn:E.
    + apply Ascii.eqb_eq in E. subst x.
      rewrite concat_cons by apply split_go_not_nil. rewrite IH. reflexivity.
    + rewrite IH, append_assoc. reflexivity.
Qed.

(** no field of [s.split(c)] contains [c] *)
Lemma split_go_fields (c : ascii) (s cur : string) :
  has_char c cur = false ->
  forall f, In f (split_go (String c "") s cur) -> has_char c f = false.
Proof.
  revert cur. induction s as [|x s IH]; intros cur Hcur f Hf.
  - destruct Hf as [<- | []]. exact Hcur.
  - rewrite split_go_one in Hf. destruct (Ascii.eqb x c) eqn:E.
    + destruct Hf as [<- | Hf]; [exact Hcur|].
      exact (IH "" eq_refl f Hf).
    + refine (IH _ _ f Hf).
      clear IH Hf. induction cur as [|y cur IHc]; simpl in *.
      * rewrite E. reflexivity.
      * apply orb_false_iff in Hcur as [-> H2]. exact (IHc H2).
Qed.

End OneChar.

Section Doubles.

Variable c : ascii.

Lemma nochar_dbl (x : string) : has_char c x = false -> dbl c x = false.
Proof.
  induction x as [|a x IH]; intros H; [reflexivity|].
  simpl in H. apply orb_false_iff in H as [Ha Hx].
  rewrite dbl_cons, Ha, IH by exact Hx. reflexivity.
Qed.

Lemma nochar_head (x : string) : has_char c x = false -> head_is c x = false.
Proof.
  destruct x as [|a x]; simpl; [reflexivity|].
  intros H. apply orb_false_iff in H as [Ha _]. exact Ha.
Qed.

(** a separator [e] other than [c] cannot be part of a [c c] pair *)
Lemma dbl_sep (e : ascii) (x y : string) :
  Ascii.eqb e c = false -> dbl c (x ++ String e y) = dbl c x || dbl c y.
Proof.
  intros He. induction x as [|a x IH].
  - cbn [String.append]. rewrite dbl_cons, He. reflexivity.
  - assert (Hh : head_is c (x ++ String e y) = head_is c x)
      by (destruct x; simpl; [exact He | reflexivity]).
    cbn [String.append]. rewrite (dbl_cons c a (x ++ String e y)), (dbl_cons c a x), IH, Hh.
    rewrite orb_assoc. reflexivity.
Qed.

Lemma dbl_nochar_sep (x r : string) :
  has_char c x = false -> dbl c (x ++ String c r) = head_is c r || dbl c r.
Proof.
  induction x as [|a x IH]; intros H.
  - cbn [String.append]. rewrite dbl_cons, Ascii.eqb_refl. reflexivity.
  - simpl in H. apply orb_false_iff in H as [Ha Hx].
    cbn [String.append]. rewrite dbl_cons, Ha, IH by exact Hx. reflexivity.
Qed.

Lemma dbl_concat_other (e : ascii) (l : list string) :
  Ascii.eqb e c = false ->
  dbl c (String.concat (String e "") l) = existsb (dbl c) l.
Proof.
  intros He. induction l as [|x l IH]; [reflexivity|].
  destruct l as [|y l'].
  - simpl. rewrite orb_false_r. reflexivity.
  - rewrite concat_cons by discriminate. cbn [String.append].
    rewrite dbl_sep by exact He. rewrite IH. reflexivity.
Qed.

(** joining non-empty fields free of [c] with [c] makes no [c c] pair *)
Lemma dbl_concat_self (l : list string) :
  (forall f, In f l -> has_char c f = false /\ f <> "") ->
  dbl c (String.concat (String c "") l) = false /\
  (l <> [] -> head_is c (String.concat (String c "") l) = false).
Proof.
  induction l as [|x l IH]; intros Hl.
  - split; [reflexivity | congruence].
  - destruct (Hl x (or_introl eq_refl)) as [Hx Hne].
    destruct IH as [IHd IHh]; [intros f Hf; exact (Hl f (or_intror Hf))|].
    destruct l as [|y l'].
    + simpl. split; [apply nochar_dbl | intros _; apply nochar_head];
        exact Hx.
    + rewrite concat_cons by discriminate. cbn [String.append].
      rewrite dbl_nochar_sep by exact Hx. rewrite IHd, IHh by discriminate.
      split; [reflexivity|]. intros _.
      destruct x as [|a x]; [congruence|].
      simpl in Hx |- *. apply orb_false_iff in Hx as [Ha _]. exact Ha.
Qed.

(** one pass of [_strip_repeat_delimiters] on the delimiter [c] leaves no
    [c c] pair *)
Lemma strip_one_self (p : string) : dbl c (strip_one p (String c "")) = false.
Proof.
  unfold strip_one, py_join, py_split. simpl.
  apply dbl_concat_self. intros f Hf.
  apply filter_In in Hf as [Hf Hne]. split.
  - exact (split_go_fields c p "" eq_refl f Hf).
  - intros ->. discriminate.
Qed.

(** a pass on another one-character delimiter [e] keeps a string free of
    [c c] pairs free of them *)
Lemma strip_one_other (e : ascii) (p : string) :
  Ascii.eqb e c = false -> dbl c p = false ->
  dbl c (strip_one p (String e "")) = false.
Proof.
  intros He Hp. unfold strip_one, py_join, py_split. simpl.
  rewrite dbl_concat_other by exact He.
  destruct (existsb (dbl c) (filter nonempty (split_go (String e "") p "")))
    eqn:E; [|reflexivity].
  exfalso. apply existsb_exists in E as [f [Hf Hd]].
  apply filter_In in Hf as [Hf _].
  assert (Hs : existsb (dbl c) (split_go (String e "") p "") = true)
    by (apply existsb_exists; eauto).
  rewrite <- (dbl_concat_other e) in Hs by exact He.
  rewrite concat_split_go in Hs.
  simpl in Hs. congruence.
Qed.

Lemma strip_with_keep (ds : list string) (p : string) :
  (forall d, In d ds -> String.length d <= 1) ->
  dbl c p = false -> dbl c (strip_with ds p) = false.
Proof.
  unfold strip_with. revert p.
  induction ds as [|d ds IH]; intros p Hds Hp; simpl; [exact Hp|].
  apply IH; [intros d' Hd'; exact (Hds d' (or_intror Hd'))|].
  specialize (Hds d (or_introl eq_refl)).
  destruct d as [|e [|e' d']]; simpl in Hds.
  - exact Hp.
  - destruct (Ascii.eqb e c) eqn:E.
    + apply Ascii.eqb_eq in E. subst e. apply strip_one_self.
    + exact (strip_one_other e p E Hp).
  - lia.
Qed.

(** every one-character delimiter is left without adjacent repeats, in
    whatever order the delimiters are processed *)
Lemma strip_with_no_dbl (ds : list string) (p : string) :
  (forall d, In d ds -> String.length d <= 1) ->
  In (String c "") ds -> dbl c (strip_with ds p) = false.
Proof.
  unfold strip_with. revert p.
  induction ds as [|d ds IH]; intros p Hds Hin; [contradiction|].
  simpl. destruct Hin as [-> | Hin].
  - apply strip_with_keep; [intros d' Hd'; exact (Hds d' (or_intror Hd'))|].
    apply strip_one_self.
  - apply IH; [intros d' Hd'; exact (Hds d' (or_intror Hd')) | exact Hin].
Qed.

Lemma contains_dbl (s : string) :
  contains (String c (String c "")) s = dbl c s.
Proof.
  induction s as [|x s IH]; [reflexivity|].
  simpl contains. rewrite IH, dbl_cons. f_equal.
  simpl. destruct (ascii_dec c x) as [<- | Hne].
  - rewrite Ascii.eqb_refl. destruct s as [|y s]; simpl; [reflexivity|].
    destruct (ascii_dec c y) as [<- | Hne'].
    + rewrite Ascii.eqb_refl. destruct s; reflexivity.
    + symmetry. apply Ascii.eqb_neq. congruence.
  - symmetry. apply andb_false_intro1, Ascii.eqb_neq. congruence.
Qed.

End Doubles.

(** A successful [gen_path] returns a normalised string. *)
Lemma gen_path_ok_strip (g : PathGenerator) (atts : dict) (out : string) :
  gen_path g atts = Ok out -> exists p, out = strip_repeat_delimiters g p.
Proof.
  unfold gen_path. destruct (terminated g); simpl; [|discriminate].
  destruct (check_rules (rules g) (subset_of g atts)); simpl; [|discriminate].
  destruct (render_all (components g) atts) as [parts|e].
  - intros H. injection H as <-. eauto.
  - destruct e; try discriminate. destruct (find _ _); discriminate.
Qed.

(** C6 as stated fails.  With [a] optional and absent, the entries of
    [optional_first] concatenate to ["//b-y"], the ["/"] doubled around the
    vanished component, and [gen_path] returns ["b-y"], where ["/"] does not
    occur at all.  With the three-character delimiter ["bab"] of
    [optional_middle], the doubled ["babbab"] left by the vanished [q] is
    still in the output, as the value ["ba"] shifts where [split] cuts. *)
Lemma vanished_component_delimiters :
  raw_path optional_first [("b", "y")] = Ok "//b-y" /\
  gen_path_r optional_first [("b", "y")] = Ok "b-y" /\
  contains "/" "b-y" = false /\
  raw_path optional_middle [("p", "ba"); ("r", "x")] = Ok "pbababbabrx" /\
  gen_path_r optional_middle [("p", "ba"); ("r", "x")] = Ok "pbababbabrx" /\
  contains "babbab" "pbababbabrx" = true.
Proof. repeat split; reflexivity. Qed.

(** C6 (corrected).  An optional component whose key is absent renders to
    [""]; when every delimiter of the template is a single character, the
    output of [gen_path] never holds the same delimiter twice in a row, so a
    delimiter doubled around a vanished component is left at most once.
    The last part shows this for every processing order of the
    delimiters. *)
Theorem vanished_component_normalised :
  (forall nc m, required nc = false -> lookup (key nc) m = None ->
     name nc m = Ok "") /\
  (forall g atts out, gen_path g atts = Ok out ->
     (forall d, In d (delimiters g) -> String.length d <= 1) ->
     forall c, In (String c "") (delimiters g) ->
       contains (String c (String c "")) out = false) /\
  (forall ds p, (forall d, In d ds -> String.length d <= 1) ->
     forall c, In (String c "") ds ->
       contains (String c (String c "")) (strip_with ds p) = false).
Proof.
  split; [|split].
  - intros nc m Hr Hn. rewrite (name_absent nc m Hn), Hr. reflexivity.
  - intros g atts out Hg Hds c Hc.
    destruct (gen_path_ok_strip g atts out Hg) as [p ->].
    rewrite contains_dbl. exact (strip_with_no_dbl c _ p Hds Hc).
  - intros ds p Hds c Hc. rewrite contains_dbl.
    exact (strip_with_no_dbl c ds p Hds Hc).
Qed.

Lemma vanished_component_normalised_witness :
  name (mkNC "a" "-" false false) [("b", "y")] = Ok "" /\
  contains "//" "b-y" = false /\
  contains "__" (strip_with ["_"; "/"] "a//b__c") = false.
Proof.
  split; [|split].
  - apply (proj1 vanished_component_normalised); reflexivity.
  - apply (proj1 (proj2 vanished_component_normalised)
             optional_first_value [("b", "y")]).
    + reflexivity.
    + intros d Hd. vm_compute in Hd.
      repeat (destruct Hd as [<- | Hd]; [simpl; lia|]). destruct Hd.
    + vm_compute. left. reflexivity.
  - apply (proj2 (proj2 vanished_component_normalised)).
    + intros d Hd. repeat (destruct Hd as [<- | Hd]; [simpl; lia|]).
      destruct Hd.
    + left. reflexivity.
Defined.

(** ** Further properties of the builder *)

Lemma run_Err (e : exn) (cs : list call) : run (Err e) cs = Err e.
Proof. induction cs; simpl; [reflexivity | exact IHcs]. Qed.

(** a property established by [__init__] and kept by every builder call
    holds of every built template *)
Lemma run_invariant (P : PathGenerator -> Prop) (r : res PathGenerator)
    (cs : list call) (g : PathGenerator) :
  (forall g0, r = Ok g0 -> P g0) ->
  (forall g1 c g2, P g1 -> exec g1 c = Ok g2 -> P g2) ->
  run r cs = Ok g -> P g.
Proof.
  intros H0 Hstep. revert r H0.
  induction cs as [|c cs IH]; simpl; intros r H0 Hrun.
  - exact (H0 g Hrun).
  - refine (IH _ _ Hrun). intros g2 H2.
    destruct r as [g1|e]; simpl in H2; [|discriminate].
    exact (Hstep g1 c g2 (H0 g1 eq_refl) H2).
Qed.

Lemma set_add_In (k x : string) (s : list string) :
  In x (set_add k s) <-> x = k \/ In x s.
Proof.
  unfold set_add. destruct (mem k s) eqn:E.
  - apply mem_In in E. split; [tauto|]. intros [-> | H]; assumption.
  - rewrite in_app_iff. simpl. split; intros H; intuition.
Qed.

Lemma set_add_NoDup (k : string) (s : list string) :
  NoDup s -> NoDup (set_add k s).
Proof.
  intros H. unfold set_add. destruct (mem k s) eqn:E; [exact H|].
  apply NoDup_app; [exact H | constructor; [intros []|constructor] |].
  intros x Hx [<- | []]. apply mem_In in Hx. congruence.
Qed.



(** X2.  The registry of a built template holds exactly the keys passed
    to [add_component], each once. *)
Theorem registry_of_built (os : string) (root : option string)
    (asep kvsep : string) (fs : option string) (cs : list call)
    (g : PathGenerator) :
  run (PathGenerator_init os root asep kvsep fs) cs = Ok g ->
  NoDup (attributes g) /\
  (forall k, In k (attributes g) <-> In k (added_keys cs)).
Proof.
  destruct (PathGenerator_init os root asep kvsep fs) as [g0|e] eqn:E0;
    [|rewrite run_Err; discriminate].
  assert (H0 : attributes g0 = []).
  { unfold PathGenerator_init, bind in E0.
    destruct fs as [f|]; simpl in E0;
      [destruct (String.eqb f "/" || String.eqb f "\"); simpl in E0;
       [|discriminate]|];
      injection E0 as <-; reflexivity. }
  assert (Hgen : forall cs g0 g, run (Ok g0) cs = Ok g ->
            NoDup (attributes g0) ->
            NoDup (attributes g) /\
            (forall k, In k (attributes g) <->
                       In k (attributes g0) \/ In k (added_keys cs))).
  { clear. induction cs as [|c cs IH]; simpl; intros g0 g Hrun Hnd.
    - injection Hrun as <-. split; [exact Hnd | tauto].
    - destruct c; simpl in Hrun;
        (destruct (IH _ _ Hrun) as [Hnd' Hin];
         [try apply set_add_NoDup; exact Hnd|]);
        split; try exact Hnd'; intros k; rewrite Hin; simpl;
        try (unfold add_component; simpl; rewrite set_add_In);
        rewrite ?in_app_iff; simpl; intuition (subst; auto). }
  intros Hrun. destruct (Hgen cs g0 g Hrun) as [Hnd Hin];
    [rewrite H0; constructor|].
  split; [exact Hnd|]. intros k. rewrite Hin, H0. simpl. tauto.
Qed.

Lemma registry_of_built_witness :
  NoDup (attributes scenario_A_value) /\
  (forall k, In k (attributes scenario_A_value) <->
    In k (added_keys
      [AddComponent "subject" None false true; AddFilesep;
       AddComponent "session" None false true; AddFilesep;
       AddComponent "modality" None true true; AddFilesep;
       AddComponent "subject" None false true;
       AddComponent "session" None false true;
       AddComponent "submodality" None true true; Terminate])).
Proof.
  apply (registry_of_built "/" (Some "") "_" "-" None). reflexivity.
Defined.

Lemma built_component_keys (g : PathGenerator) :
  built g ->
  forall nc, In (Comp nc) (components g) -> In (key nc) (attributes g).
Proof.
  intros (os & root & asep & kvsep & fs & cs & Hrun).
  refine (run_invariant
            (fun g => forall nc, In (Comp nc) (components g) ->
                                 In (key nc) (attributes g)) _ cs g _ _ Hrun).
  - intros g0 H0 nc Hin. unfold PathGenerator_init, bind in H0.
    destruct fs as [f|]; simpl in H0;
      [destruct (String.eqb f "/" || String.eqb f "\"); simpl in H0;
       [|discriminate]|];
      injection H0 as <-; simpl in Hin;
      (destruct root as [r|]; [destruct (String.eqb r "")|]);
      simpl in Hin; intuition discriminate.
  - intros g1 c g2 H1 Hc nc Hin.
    destruct c; simpl in Hc; injection Hc as <-; simpl in Hin |- *;
      try (apply in_app_or in Hin as [Hin | Hin];
           [exact (H1 nc Hin) | simpl in Hin; intuition discriminate]);
      try exact (H1 nc Hin).
    unfold add_component in Hin |- *; simpl in Hin |- *.
    apply set_add_In.
    destruct (rev (components g1)) as [|[s|nc0] l]; simpl in Hin.
    + destruct Hin as [Hin | []]. injection Hin as <-. left. reflexivity.
    + apply in_app_or in Hin as [Hin | [Hin | []]].
      * right. exact (H1 nc Hin).
      * injection Hin as <-. left. reflexivity.
    + apply in_app_or in Hin as [Hin | [Hin | [Hin | []]]];
        [right; exact (H1 nc Hin) | discriminate |].
      injection Hin as <-. left. reflexivity.
Qed.

(** X3.  Every component of a built template has its key in the
    registry. *)
Theorem component_keys_registered (g : PathGenerator) :
  built g ->
  forall nc, In (Comp nc) (components g) -> In (key nc) (attributes g).
Proof. exact (built_component_keys g). Qed.

Lemma component_keys_registered_witness :
  In "submodality" (attributes scenario_A_value).
Proof.
  apply (component_keys_registered scenario_A_value
           (ex_intro _ "/" (ex_intro _ (Some "") (ex_intro _ "_"
             (ex_intro _ "-" (ex_intro _ None (ex_intro _
               [AddComponent "subject" None false true; AddFilesep;
                AddComponent "session" None false true; AddFilesep;
                AddComponent "modality" None true true; AddFilesep;
                AddComponent "subject" None false true;
                AddComponent "session" None false true;
                AddComponent "submodality" None true true; Terminate]
               eq_refl))))))
           (NameComponent_init "submodality" "-" true true)).
  vm_compute. repeat first [left; reflexivity | right].
Defined.

Lemma no_adjacent_snoc (l : list Segment) (x : Segment) :
  no_adjacent_comps (l ++ [x])
  = no_adjacent_comps l && negb (last_is_comp l && seg_is_comp x).
Proof.
  unfold last_is_comp.
  induction l as [|y l IH]; [reflexivity|].
  destruct l as [|z l'].
  - simpl. rewrite !andb_true_r. reflexivity.
  - change ((y :: z :: l') ++ [x])%list with (y :: z :: (l' ++ [x]))%list.
    change (no_adjacent_comps (y :: z :: (l' ++ [x])))
      with (negb (seg_is_comp y && seg_is_comp z)
            && no_adjacent_comps (z :: (l' ++ [x]))).
    change ((z :: l') ++ [x])%list with (z :: (l' ++ [x]))%list in IH.
    rewrite IH.
    change (no_adjacent_comps (y :: z :: l'))
      with (negb (seg_is_comp y && seg_is_comp z)
            && no_adjacent_comps (z :: l')).
    replace (rev (y :: z :: l')) with (rev (z :: l') ++ [y])%list
      by reflexivity.
    destruct (rev (z :: l')) as [|w ws] eqn:E.
    + apply (f_equal (@length Segment)) in E. rewrite length_rev in E.
      discriminate.
    + simpl. rewrite andb_assoc. reflexivity.
Qed.

(** X4.  In a built template no two components are adjacent: the builder
    always puts a separator entry between consecutive components. *)
Theorem no_adjacent_components (g : PathGenerator) :
  built g -> no_adjacent_comps (components g) = true.
Proof.
  intros (os & root & asep & kvsep & fs & cs & Hrun).
  refine (run_invariant (fun g => no_adjacent_comps (components g) = true)
            _ cs g _ _ Hrun).
  - intros g0 H0. unfold PathGenerator_init, bind in H0.
    destruct fs as [f|]; simpl in H0;
      [destruct (String.eqb f "/" || String.eqb f "\"); simpl in H0;
       [|discriminate]|];
      injection H0 as <-; simpl;
      (destruct root as [r|]; [destruct (String.eqb r "")|]); reflexivity.
  - intros g1 c g2 H1 Hc.
    destruct c; simpl in Hc; injection Hc as <-; simpl;
      try (rewrite no_adjacent_snoc, H1; simpl; rewrite andb_false_r;
           reflexivity); try exact H1.
    unfold add_component; simpl.
    destruct (rev (components g1)) as [|[s|nc0] l] eqn:E.
    + reflexivity.
    + rewrite no_adjacent_snoc, H1. unfold last_is_comp. rewrite E.
      reflexivity.
    + replace (components g1 ++ [Lit (attribute_sep g1);
                                 Comp (NameComponent_init key0
                                   match delimiter with
                                   | Some d' => d' | None => kv_sep g1 end
                                   value_only0 required0)])%list
        with ((components g1 ++ [Lit (attribute_sep g1)]) ++
              [Comp (NameComponent_init key0
                       match delimiter with
                       | Some d' => d' | None => kv_sep g1 end
                       value_only0 required0)])%list
        by (rewrite <- app_assoc; reflexivity).
      rewrite !no_adjacent_snoc, H1. unfold last_is_comp.
      rewrite rev_app_distr, E. reflexivity.
Qed.

Lemma no_adjacent_components_witness :
  no_adjacent_comps (components scenario_A_value) = true.
Proof.
  apply no_adjacent_components.
  exists "/", (Some ""), "_", "-", None,
    [AddComponent "subject" None false true; AddFilesep;
     AddComponent "session" None false true; AddFilesep;
     AddComponent "modality" None true true; AddFilesep;
     AddComponent "subject" None false true;
     AddComponent "session" None false true;
     AddComponent "submodality" None true true; Terminate].
  reflexivity.
Defined.




Lemma check_err (r : InclusionRule) (m : dict) (e : exn) :
  check r m = Err e ->
  exists k v, e = RuleViolation k (rule_key r) v /\ In k (keys m) /\
              ~ In k (includes r) /\ lookup (rule_key r) m = Some v /\
              In v (rule_value r).
Proof.
  unfold check.
  destruct (mem (rule_key r) (keys m)) eqn:Em; simpl; [|discriminate].
  destruct (mem_keys_lookup_some _ _ Em) as [v Hv]. rewrite Hv.
  destruct (mem v (rule_value r)) eqn:Ev; simpl; [|discriminate].
  destruct (find (fun k => negb (mem k (includes r))) (keys m)) as [k|] eqn:F;
    [|discriminate].
  intros H. injection H as <-.
  apply find_some in F as [Hin Hk]. exists k, v.
  repeat split; try assumption.
  - intros Hi. apply mem_In in Hi. rewrite Hi in Hk. discriminate.
  - apply mem_In. exact Ev.
Qed.

Lemma check_rules_err (rs : list InclusionRule) (m : dict) (e : exn) :
  check_rules rs m = Err e ->
  exists pre r post, rs = (pre ++ r :: post)%list /\
    Forall (fun r => check r m = Ok tt) pre /\ check r m = Err e.
Proof.
  induction rs as [|r rs IH]; simpl; [discriminate|].
  destruct (check r m) as [[]|e0] eqn:E; simpl.
  - intros He. destruct (IH He) as (pre & r' & post & -> & Hpre & Hr).
    exists (r :: pre), r', post. split; [reflexivity|].
    split; [constructor; assumption | exact Hr].
  - intros He. injection He as <-. exists [], r, rs.
    split; [reflexivity|]. split; [constructor | exact E].
Qed.

(** X6.  The rules are combined with AND, in registration order: the check
    passes exactly when every rule passes, and a failure is the error of a
    rule all of whose predecessors passed. *)
Theorem check_rules_spec (rs : list InclusionRule) (m : dict) :
  (check_rules rs m = Ok tt <-> Forall (fun r => check r m = Ok tt) rs) /\
  (forall e, check_rules rs m = Err e ->
     exists pre r post, rs = (pre ++ r :: post)%list /\
       Forall (fun r => check r m = Ok tt) pre /\ check r m = Err e).
Proof.
  induction rs as [|r rs [IH1 IH2]]; simpl.
  - split; [split; constructor | discriminate].
  - destruct (check r m) as [[]|e0] eqn:E; simpl.
    + split.
      * rewrite IH1. split; [intros H; constructor; assumption|].
        intros H. inversion H. assumption.
      * intros e He. destruct (IH2 e He) as (pre & r' & post & -> & Hpre & Hr).
        exists (r :: pre), r', post. split; [reflexivity|].
        split; [constructor; assumption | exact Hr].
    + split.
      * split; [discriminate|]. intros H. inversion H. congruence.
      * intros e He. injection He as <-. exists [], r, rs.
        split; [reflexivity|]. split; [constructor | exact E].
Qed.

Lemma check_rules_spec_witness :
  exists pre r post,
    [InclusionRule_init "k" (OneStr "v") ["k"];
     InclusionRule_init "k" (OneStr "v") ["a"]]
      = (pre ++ r :: post)%list /\
    Forall (fun r => check r [("k", "v")] = Ok tt) pre /\
    check r [("k", "v")] = Err (RuleViolation "k" "k" "v").
Proof.
  apply (proj2 (check_rules_spec
                  [InclusionRule_init "k" (OneStr "v") ["k"];
                   InclusionRule_init "k" (OneStr "v") ["a"]]
                  [("k", "v")])).
  reflexivity.
Defined.

Lemma lookup_In (k v : string) (m : dict) :
  lookup k m = Some v -> In (k, v) m.
Proof.
  induction m as [|[k' v'] m IH]; simpl; [discriminate|].
  destruct (String.eqb k k') eqn:E.
  - intros H. injection H as <-. apply String.eqb_eq in E. subst. left.
    reflexivity.
  - intros H. right. exact (IH H).
Qed.

Lemma subset_of_In (g : PathGenerator) (atts : dict) (k v : string) :
  In (k, v) (subset_of g atts) ->
  In k (attributes g) /\ lookup k atts = Some v.
Proof.
  unfold subset_of. rewrite in_flat_map. intros [k' [Hk' Hin]].
  destruct (mem k' (keys atts)); [|contradiction].
  destruct (lookup k' atts) as [v'|] eqn:E; [|contradiction].
  destruct Hin as [Hin | []]. injection Hin as <- <-. split; assumption.
Qed.

Lemma in_keys (k : string) (m : dict) :
  In k (keys m) -> exists v, In (k, v) m.
Proof.
  unfold keys. rewrite in_map_iff. intros [[k' v] [Hk Hin]].
  simpl in Hk. subst. eauto.
Qed.

(** X7.  A rule violation reported by [gen_path] names an offending key
    and a trigger key that are both registered attributes of the template
    and both present in the attribute map, with the trigger value the map
    gives; an unregistered key of the map never triggers or breaks a
    rule. *)
Theorem rule_violation_registered (g : PathGenerator) (atts : dict)
    (k key v : string) :
  gen_path g atts = Err (RuleViolation k key v) ->
  In k (attributes g) /\ In k (keys atts) /\
  In key (attributes g) /\ lookup key atts = Some v /\
  exists r, In r (rules g) /\ rule_key r = key /\ In v (rule_value r) /\
            ~ In k (includes r).
Proof.
  unfold gen_path. destruct (terminated g); simpl; [|discriminate].
  destruct (check_rules (rules g) (subset_of g atts)) as [[]|e] eqn:Ec; simpl.
  - destruct (render_all (components g) atts) as [parts|e] eqn:Er;
      [discriminate|].
    destruct (render_all_err _ _ _ Er) as [k' ->]. discriminate.
  - intros H. injection H as ->.
    destruct (check_rules_err _ _ _ Ec)
      as (pre & r & post & Hrs & _ & Hr).
    destruct (check_err r _ _ Hr)
      as (k' & v' & Heq & Hk & Hni & Hl & Hv).
    injection Heq as Hk' Hkey Hv'. subst k' v' key.
    destruct (in_keys _ _ Hk) as [w Hw].
    destruct (subset_of_In g atts k w Hw) as [Hk1 Hk2].
    destruct (subset_of_In g atts (rule_key r) v (lookup_In _ _ _ Hl))
      as [Hkey1 Hkey2].
    repeat split; try assumption.
    + apply lookup_some_mem, mem_In in Hk2. exact Hk2.
    + exists r. repeat split; try assumption.
      rewrite Hrs. apply in_or_app. right. left. reflexivity.
Qed.

Lemma rule_violation_registered_witness :
  In "task" (attributes rule_template).
Proof.
  apply (proj1 (rule_violation_registered rule_template
                  [("modality", "anat"); ("task", "rest")]
                  "task" "modality" "anat" eq_refl)).
Defined.

Lemma name_ok_iff (nc : NameComponent) (m : dict) :
  is_err (name nc m) = false <->
  (required nc = true -> lookup (key nc) m <> None).
Proof.
  destruct (lookup (key nc) m) as [v|] eqn:E.
  - unfold name. rewrite (lookup_some_mem _ _ _ E), E, andb_false_r.
    split; [intros _ _; discriminate|].
    intros _. destruct (value_only nc); reflexivity.
  - rewrite (name_absent nc m E).
    destruct (required nc); simpl; split; intros H; try reflexivity;
      try discriminate.
    exfalso. exact (H eq_refl eq_refl).
Qed.

Lemma render_all_ok_iff (xs : list Segment) (m : dict) :
  is_err (render_all xs m) = false <->
  (forall nc, In (Comp nc) xs -> required nc = true ->
              lookup (key nc) m <> None).
Proof.
  induction xs as [|x xs IH]; simpl.
  - split; [intros _ nc []|reflexivity].
  - assert (Hx : is_err (str_ x m) = false <->
                 (forall nc, x = Comp nc -> required nc = true ->
                             lookup (key nc) m <> None)).
    { destruct x as [s|nc0]; simpl.
      - split; [intros _ nc H; discriminate | reflexivity].
      - rewrite name_ok_iff. split.
        + intros H nc Heq. injection Heq as <-. exact H.
        + intros H. exact (H nc0 eq_refl). }
    destruct (str_ x m) as [s|e]; simpl in Hx |- *.
    + destruct (render_all xs m) as [ss|e]; simpl in IH |- *.
      * split; [|reflexivity]. intros _ nc [Hnc | Hnc].
        -- apply (proj1 Hx eq_refl nc Hnc).
        -- apply (proj1 IH eq_refl nc Hnc).
      * split; [discriminate|]. intros H.
        apply IH. intros nc Hnc. exact (H nc (or_intror Hnc)).
    + split; [discriminate|]. intros H.
      apply Hx. intros nc Hnc. exact (H nc (or_introl Hnc)).
Qed.

(** X8.  [gen_path] checks the rules before it renders: on a terminated
    template, a rule violation of the registered part of the map is the
    error reported, even when a required component is also missing. *)
Theorem rules_before_render (g : PathGenerator) (atts : dict) (e : exn) :
  terminated g = true ->
  check_rules (rules g) (subset_of g atts) = Err e ->
  gen_path g atts = Err e.
Proof.
  intros Ht Hc. unfold gen_path. rewrite Ht, Hc. reflexivity.
Qed.

Lemma rules_before_render_witness :
  gen_path rule_template [("modality", "anat"); ("task", "rest")]
    = Err (RuleViolation "task" "modality" "anat").
Proof. apply rules_before_render; reflexivity. Defined.

(** X9.  [gen_path] succeeds exactly when the template is terminated, every
    rule passes on the registered part of the map, and the map holds the
    key of every required component. *)
Theorem gen_path_ok_iff (g : PathGenerator) (atts : dict) :
  is_err (gen_path g atts) = false <->
  terminated g = true /\ check_rules (rules g) (subset_of g atts) = Ok tt /\
  (forall nc, In (Comp nc) (components g) -> required nc = true ->
              lookup (key nc) atts <> None).
Proof.
  rewrite <- render_all_ok_iff. unfold gen_path.
  destruct (terminated g); simpl; [|split; [discriminate | intros [H _];
                                             discriminate]].
  destruct (check_rules (rules g) (subset_of g atts)) as [[]|e]; simpl;
    [|split; [discriminate | intros [_ [H _]]; discriminate]].
  destruct (render_all (components g) atts) as [parts|e] eqn:E; simpl.
  - split; [intros _; repeat split | reflexivity].
  - destruct (render_all_err _ _ _ E) as [k ->]. simpl.
    split; [discriminate | intros [_ [_ H]]; discriminate].
Qed.

Lemma gen_path_ok_iff_witness :
  is_err (gen_path_r scenario_B atts_B) = false.
Proof.
  unfold gen_path_r. simpl bind.
  apply gen_path_ok_iff. vm_compute. split; [reflexivity|].
  split; [reflexivity|]. intros nc Hnc Hr.
  repeat (destruct Hnc as [Hnc | Hnc];
          [try discriminate; injection Hnc as <-; discriminate|]).
  destruct Hnc.
Defined.

Lemma render_all_err_In (xs : list Segment) (m : dict) (e : exn) :
  render_all xs m = Err e -> exists nc, In (Comp nc) xs /\ name nc m = Err e.
Proof.
  induction xs as [|x xs IH]; simpl; [discriminate|].
  destruct x as [s|nc]; simpl.
  - destruct (render_all xs m); simpl; [discriminate|].
    intros H. destruct (IH H) as [nc [Hin Hn]]. exists nc. split; auto.
  - destruct (name nc m) eqn:En; simpl.
    + destruct (render_all xs m); simpl; [discriminate|].
      intros H. destruct (IH H) as [nc' [Hin Hn]]. exists nc'. split; auto.
    + intros H. injection H as <-. exists nc. split; auto.
Qed.

(** X10.  When [gen_path] reports a missing required attribute [k], the
    template has a required component with key [k] and the map has no
    [k]. *)
Theorem missing_required_sound (g : PathGenerator) (atts : dict) (k : string) :
  gen_path g atts = Err (MissingRequired k) ->
  exists nc, In (Comp nc) (components g) /\ key nc = k /\
             required nc = true /\ lookup k atts = None.
Proof.
  unfold gen_path. destruct (terminated g); simpl; [|discriminate].
  destruct (check_rules (rules g) (subset_of g atts)) as [[]|e] eqn:Ec; simpl.
  - destruct (render_all (components g) atts) as [parts|e] eqn:Er;
      [discriminate|].
    destruct (render_all_err_In _ _ _ Er) as [nc [Hin Hn]].
    rewrite (name_err _ _ _ Hn) in Hn |- *.
    intros H. injection H as <-.
    exists nc. split; [exact Hin|]. split; [reflexivity|].
    destruct (lookup (key nc) atts) as [v|] eqn:El.
    + exfalso. assert (Hok : is_err (name nc atts) = false)
        by (apply name_ok_iff; intros _; congruence).
      rewrite Hn in Hok. discriminate.
    + rewrite (name_absent nc atts El) in Hn.
      destruct (required nc); [split; reflexivity | discriminate].
  - intros H. injection H as ->.
    destruct (check_rules_err _ _ _ Ec) as (pre & r & post & _ & _ & Hr).
    destruct (check_err r _ _ Hr) as (k' & v' & Heq & _). discriminate.
Qed.

Lemma missing_required_sound_witness :
  exists nc, In (Comp nc) (components scenario_A_value) /\
             key nc = "session" /\ required nc = true /\
             lookup "session" [("subject", "Jen"); ("modality", "anat")] = None.
Proof.
  apply (missing_required_sound scenario_A_value [("subject", "Jen"); ("modality", "anat")]).
  reflexivity.
Defined.








(** ** Properties of the normalisation passes *)

Lemma ends_with_split (d s : string) :
  ends_with d s = true -> exists x, s = x ++ d.
Proof.
  induction s as [|a s IH]; intros H; cbn [ends_with] in H;
    apply orb_true_iff in H as [H | H].
  - apply String.eqb_eq in H. subst d. exists "". reflexivity.
  - discriminate.
  - apply String.eqb_eq in H. subst d. exists "". reflexivity.
  - destruct (IH H) as [x ->]. exists (String a x). reflexivity.
Qed.

(** [d.join(s.split(d)) == s], for any delimiter *)
Lemma concat_split_go_any (d s cur : string) :
  String.concat d (split_go d s cur) = cur ++ s.
Proof.
  revert cur. induction s as [|a s IH]; intros cur; simpl.
  - rewrite append_empty_r. reflexivity.
  - destruct (ends_with d (cur ++ String a "")) eqn:E.
    + destruct (ends_with_split _ _ E) as [x Hx]. rewrite Hx.
      rewrite length_append, Nat.add_sub, substring_append.
      rewrite concat_cons by apply split_go_not_nil. rewrite IH.
      rewrite <- append_assoc, <- Hx, append_assoc. reflexivity.
    + rewrite IH, append_assoc. reflexivity.
Qed.

Lemma length_concat_filter (d : string) (l : list string) :
  String.length (String.concat d (filter nonempty l))
  <= String.length (String.concat d l).
Proof.
  induction l as [|x l IH]; [reflexivity|].
  cbn [filter]. destruct l as [|z l'].
  - simpl. destruct (nonempty x); simpl; lia.
  - rewrite (concat_cons d x (z :: l')) by discriminate.
    rewrite !length_append.
    destruct (nonempty x); [|lia].
    destruct (filter nonempty (z :: l')) as [|y f];
      [change (String.concat d [x]) with x; lia|].
    rewrite (concat_cons d x (y :: f)) by discriminate.
    rewrite !length_append. lia.
Qed.

Lemma strip_one_length (p d : string) :
  String.length (strip_one p d) <= String.length p.
Proof.
  unfold strip_one. destruct (String.eqb d ""); [lia|].
  unfold py_join, py_split.
  etransitivity; [apply length_concat_filter|].
  rewrite concat_split_go_any. reflexivity.
Qed.

Lemma strip_with_length (ds : list string) (p : string) :
  String.length (strip_with ds p) <= String.length p.
Proof.
  unfold strip_with. revert p.
  induction ds as [|d ds IH]; intros p; simpl; [lia|].
  etransitivity; [apply IH | apply strip_one_length].
Qed.

(** X12.  A successful [gen_path] returns the normalised concatenation of
    the rendered entries, and normalisation never makes the path longer. *)
Theorem gen_path_ok_shape (g : PathGenerator) (atts : dict) (out : string) :
  gen_path g atts = Ok out ->
  exists parts, render_all (components g) atts = Ok parts /\
    out = strip_repeat_delimiters g (String.concat "" parts) /\
    String.length out <= String.length (String.concat "" parts).
Proof.
  unfold gen_path. destruct (terminated g); simpl; [|discriminate].
  destruct (check_rules (rules g) (subset_of g atts)); simpl; [|discriminate].
  destruct (render_all (components g) atts) as [parts|e].
  - intros H. injection H as <-. exists parts.
    split; [reflexivity|]. split; [reflexivity|].
    apply strip_with_length.
  - destruct e; try discriminate. destruct (find _ _); discriminate.
Qed.

Lemma gen_path_ok_shape_witness :
  exists parts, render_all (components scenario_A_value) atts_A = Ok parts /\
    "subject-Jen/session-1/anat/subject-Jen_session-1_T1w"
      = strip_repeat_delimiters scenario_A_value (String.concat "" parts) /\
    String.length "subject-Jen/session-1/anat/subject-Jen_session-1_T1w"
      <= String.length (String.concat "" parts).
Proof. apply gen_path_ok_shape. vm_compute. reflexivity. Defined.

Lemma split_go_nochar (c : ascii) (x r cur : string) :
  has_char c x = false ->
  split_go (String c "") (x ++ r) cur = split_go (String c "") r (cur ++ x).
Proof.
  revert cur. induction x as [|a x IH]; intros cur Hx.
  - rewrite append_empty_r. reflexivity.
  - simpl in Hx. apply orb_false_iff in Hx as [Ha Hx].
    cbn [String.append]. rewrite split_go_one, Ha, IH by exact Hx.
    rewrite append_assoc. reflexivity.
Qed.

(** [c.join(fields).split(c) == fields] for fields free of [c] *)
Lemma split_concat_fields (c : ascii) (l : list string) :
  (forall f, In f l -> has_char c f = false) -> l <> [] ->
  split_go (String c "") (String.concat (String c "") l) "" = l.
Proof.
  induction l as [|x l IH]; intros Hl Hne; [congruence|].
  assert (Hx : has_char c x = false) by (apply Hl; left; reflexivity).
  destruct l as [|y l'].
  - simpl. rewrite <- (append_empty_r x) at 1.
    rewrite split_go_nochar by exact Hx. reflexivity.
  - rewrite concat_cons by discriminate.
    rewrite split_go_nochar by exact Hx. cbn [String.append]. rewrite split_go_one, Ascii.eqb_refl.
    rewrite IH; [reflexivity | intros f Hf; apply Hl; right; exact Hf |
                 discriminate].
Qed.

Lemma filter_nonempty_all (l : list string) :
  (forall f, In f l -> f <> "") -> filter nonempty l = l.
Proof.
  induction l as [|x l IH]; intros Hl; [reflexivity|].
  simpl. rewrite IH by (intros f Hf; apply Hl; right; exact Hf).
  destruct x as [|a x]; [exfalso; apply (Hl "" (or_introl eq_refl));
                         reflexivity | reflexivity].
Qed.

(** the fields a one-character pass joins: non-empty and free of [c] *)
Lemma strip_one_fields (c : ascii) (p : string) :
  strip_one p (String c "")
  = String.concat (String c "") (filter nonempty (split_go (String c "") p ""))
  /\ (forall f, In f (filter nonempty (split_go (String c "") p "")) ->
                has_char c f = false /\ f <> "").
Proof.
  split; [reflexivity|].
  intros f Hf. apply filter_In in Hf as [Hf Hne]. split.
  - exact (split_go_fields c p "" eq_refl f Hf).
  - intros ->. discriminate.
Qed.

(** X13.  One pass of the loop of [_strip_repeat_delimiters] on a
    one-character delimiter is idempotent: a second pass on the same
    delimiter changes nothing. *)
Theorem strip_one_idempotent (c : ascii) (p : string) :
  strip_one (strip_one p (String c "")) (String c "")
  = strip_one p (String c "").
Proof.
  destruct (strip_one_fields c p) as [-> Hf].
  set (l := filter nonempty (split_go (String c "") p "")) in *.
  unfold strip_one at 1. simpl String.eqb. cbv iota.
  unfold py_join, py_split.
  destruct l as [|x l'] eqn:El; [reflexivity|].
  rewrite split_concat_fields; [| intros f Hin; apply Hf, Hin | discriminate].
  rewrite filter_nonempty_all by (intros f Hin; apply Hf, Hin).
  reflexivity.
Qed.

(** X14.  A pass on a one-character delimiter leaves a path that does not
    contain the delimiter unchanged. *)
Theorem strip_one_nochar (c : ascii) (p : string) :
  has_char c p = false -> strip_one p (String c "") = p.
Proof.
  intros Hp. unfold strip_one, py_join, py_split. simpl String.eqb. cbv iota.
  rewrite <- (append_empty_r p) at 1.
  rewrite split_go_nochar by exact Hp. simpl.
  destruct p as [|a p]; reflexivity.
Qed.

Lemma strip_one_nochar_witness :
  strip_one "sub-Jen_ses-1" "/" = "sub-Jen_ses-1".
Proof. apply strip_one_nochar. reflexivity. Defined.

Lemma last_char_append (c : ascii) (y r x : string) :
  r <> "" -> (y ++ r)%string = (x ++ String c "")%string ->
  exists x', r = (x' ++ String c "")%string.
Proof.
  revert x. induction y as [|a y IH]; intros x Hr H.
  - exists x. exact H.
  - destruct x as [|b x].
    + simpl in H. injection H as _ H. destruct y; simpl in H; [congruence|].
      discriminate.
    + simpl in H. injection H as _ H. exact (IH x Hr H).
Qed.

Lemma concat_fields_last (c : ascii) (l : list string) (x : string) :
  (forall f, In f l -> has_char c f = false /\ f <> "") ->
  String.concat (String c "") l <> (x ++ String c "")%string.
Proof.
  revert x. induction l as [|a l IH]; intros x Hl H.
  - destruct x; discriminate.
  - destruct (Hl a (or_introl eq_refl)) as [Ha _].
    destruct l as [|b l'].
    + simpl in H. subst a. clear - Ha. induction x as [|y x IHx]; simpl in Ha.
      * rewrite Ascii.eqb_refl in Ha. discriminate.
      * apply orb_false_iff in Ha as [_ Ha]. exact (IHx Ha).
    + rewrite concat_cons in H by discriminate.
      assert (Hb : String.concat (String c "") (b :: l') <> "").
      { destruct (Hl b (or_intror (or_introl eq_refl))) as [_ Hb].
        destruct l' as [|z l'']; [exact Hb|].
        rewrite concat_cons by discriminate. destruct b; [congruence|].
        discriminate. }
      rewrite <- append_assoc in H.
      destruct (last_char_append c _ _ _ Hb H) as [x' Hx'].
      exact (IH x' (fun f Hf => Hl f (or_intror Hf)) Hx').
Qed.

(** X15.  After a pass on a one-character delimiter the path neither
    starts nor ends with that delimiter. *)
Theorem strip_one_trims (c : ascii) (p x : string) :
  strip_one p (String c "") <> String c x /\
  strip_one p (String c "") <> (x ++ String c "")%string.
Proof.
  destruct (strip_one_fields c p) as [-> Hf]. split.
  - destruct (filter nonempty (split_go (String c "") p "")) as [|f l] eqn:E;
      [discriminate|].
    destruct (dbl_concat_self c (f :: l) Hf) as [_ Hh].
    intros H. rewrite H in Hh. specialize (Hh ltac:(discriminate)).
    simpl in Hh. rewrite Ascii.eqb_refl in Hh. discriminate.
  - apply concat_fields_last. exact Hf.
Qed.

(** ** The builder as a whole *)

(** X16.  [gen_path] raises only [NotTerminated], a rule violation or a
    missing required attribute: its [KeyError] handler, and with it
    [UnknownAttribute] and the unbound local, is never reached. *)
Theorem gen_path_errors (g : PathGenerator) (atts : dict) (e : exn) :
  gen_path g atts = Err e ->
  e = NotTerminated \/ (exists k key v, e = RuleViolation k key v) \/
  (exists k, e = MissingRequired k).
Proof.
  unfold gen_path. destruct (terminated g); simpl;
    [|intros H; injection H as <-; left; reflexivity].
  destruct (check_rules (rules g) (subset_of g atts)) as [[]|e0] eqn:Ec; simpl.
  - destruct (render_all (components g) atts) as [parts|e0] eqn:Er;
      [discriminate|].
    destruct (render_all_err _ _ _ Er) as [k ->].
    intros H. injection H as <-. right. right. eauto.
  - intros H. injection H as <-.
    destruct (check_rules_err _ _ _ Ec) as (pre & r & post & _ & _ & Hr).
    destruct (check_err r _ _ Hr) as (k & v & -> & _). right. left. eauto.
Qed.

Lemma gen_path_errors_witness :
  gen_path rule_template [("modality", "anat"); ("task", "rest")]
    = Err (RuleViolation "task" "modality" "anat") /\
  (RuleViolation "task" "modality" "anat" = NotTerminated \/
   (exists k key v, RuleViolation "task" "modality" "anat"
                    = RuleViolation k key v) \/
   (exists k, RuleViolation "task" "modality" "anat" = MissingRequired k)).
Proof.
  split; [reflexivity|].
  apply (gen_path_errors rule_template [("modality", "anat"); ("task", "rest")]).
  reflexivity.
Defined.

(** X17.  Every builder method succeeds, whether or not the template is
    terminated, and only appends: the entries and rules already there are
    kept as a prefix, the registry only grows, the separators never
    change, and a terminated template stays terminated. *)
Theorem exec_appends (g : PathGenerator) (c : call) :
  exists g', exec g c = Ok g' /\
    (exists suf, components g' = (components g ++ suf)%list) /\
    (exists rsuf, rules g' = (rules g ++ rsuf)%list) /\
    (forall k, In k (attributes g) -> In k (attributes g')) /\
    attribute_sep g' = attribute_sep g /\ kv_sep g' = kv_sep g /\
    file_sep g' = file_sep g /\
    (terminated g = true -> terminated g' = true).
Proof.
  destruct c as [k d vo rq | d | | k v a |]; eexists; (split; [reflexivity|]);
    simpl.
  - unfold add_component; simpl. repeat split; auto.
    + destruct (rev (components g)) as [|[s|nc] l] eqn:E.
      * exists [Comp (NameComponent_init k (match d with None => kv_sep g
                                          | Some d => d end) vo rq)].
        apply (f_equal (@rev Segment)) in E. rewrite rev_involutive in E.
        rewrite E. reflexivity.
      * eexists. reflexivity.
      * eexists. reflexivity.
    + exists []. rewrite app_nil_r. reflexivity.
    + intros k' Hk. apply set_add_In. right. exact Hk.
  - repeat split; auto; [eexists; reflexivity | exists [];
                         rewrite app_nil_r; reflexivity].
  - repeat split; auto; [eexists; reflexivity | exists [];
                         rewrite app_nil_r; reflexivity].
  - repeat split; auto; [exists []; rewrite app_nil_r; reflexivity |
                         eexists; reflexivity].
  - repeat split; auto; exists []; rewrite app_nil_r; reflexivity.
Qed.

Lemma run_from (g0 g : PathGenerator) (cs : list call) :
  run (Ok g0) cs = Ok g ->
  terminated g = terminated g0 || existsb (fun c => negb (is_mutator c)) cs /\
  rules g = (rules g0 ++ added_rules cs)%list.
Proof.
  revert g0. induction cs as [|c cs IH]; intros g0 H; simpl in H.
  - injection H as <-. simpl. rewrite orb_false_r, app_nil_r. split; reflexivity.
  - destruct c; simpl in H; destruct (IH _ H) as [Ht Hr]; rewrite Ht, Hr;
    unfold exec, add_component, delimiter_override, add_filesep,
      with_components, add_inclusion_rule, terminate; simpl;
      (split; [destruct (terminated g0); reflexivity|]);
      rewrite <- ?app_assoc; reflexivity.
Qed.

(** X18.  A template built from [__init__] is terminated exactly when
    [terminate()] was among the calls, and its rules are those of the
    [add_inclusion_rule] calls, in call order. *)
Theorem built_terminated_rules (os : string) (root : option string)
    (asep kvsep : string) (fs : option string) (cs : list call)
    (g : PathGenerator) :
  run (PathGenerator_init os root asep kvsep fs) cs = Ok g ->
  (terminated g = true <-> In Terminate cs) /\ rules g = added_rules cs.
Proof.
  intros H. unfold PathGenerator_init, bind in H.
  destruct fs as [f|]; simpl in H;
    [destruct (String.eqb f "/" || String.eqb f "\"); simpl in H;
     [|rewrite run_Err in H; discriminate]|];
  destruct (run_from _ _ _ H) as [Ht Hr]; rewrite Ht, Hr; simpl;
  (split; [|reflexivity]);
  rewrite existsb_exists; split;
    (intros [c [Hin Hc]]; destruct c; try discriminate; exact Hin) ||
    (intros Hin; exists Terminate; split; [exact Hin | reflexivity]).
Qed.

Lemma built_terminated_rules_witness :
  (terminated scenario_A_value = true <->
   In Terminate
     [AddComponent "subject" None false true; AddFilesep;
      AddComponent "session" None false true; AddFilesep;
      AddComponent "modality" None true true; AddFilesep;
      AddComponent "subject" None false true;
      AddComponent "session" None false true;
      AddComponent "submodality" None true true; Terminate]) /\
  rules scenario_A_value = [].
Proof.
  apply (built_terminated_rules "/" (Some "") "_" "-" None).
  reflexivity.
Defined.






(** X21.  Normalising the empty path gives the empty path, whatever the
    delimiters. *)
Theorem strip_with_empty (ds : list string) : strip_with ds "" = "".
Proof.
  unfold strip_with. induction ds as [|d ds IH]; [reflexivity|].
  simpl. unfold strip_one at 2.
  destruct (String.eqb d ""); [exact IH|]. exact IH.
Qed.
